(** * text_toolkit: word frequency, unique words, co-occurrence tuples and
    line iteration

    A shallow embedding of [text_toolkit.py].  The four functions of the
    module are translated one by one in [Module TextToolkit]; the fragment of
    the Python runtime they rely on ([str] methods, the one regular
    expression, slicing, [range], exceptions, the file system seen through
    [os.path.isfile] and [open]) is in [Module Py]. *)

From Stdlib Require Import ZArith NArith Ascii String Lia.
From stdpp Require Import base numbers list strings gmap.

Local Open Scope Z_scope.
Set Warnings "-clear-no-such-hyp".

(** ** The Python fragment *)

Module Py.

(** A Python [str] is a sequence of Unicode code points. *)
Definition str := list N.

(** An ASCII literal of the source, as a [str]. *)
Definition lit (s : string) : str :=
  (λ a, N_of_ascii a) <$> list_ascii_of_string s.

(** The values a caller may pass.  [bool] is a subclass of [int] in Python,
    so [isinstance(True, int)] holds. *)
Inductive value :=
  | VNone
  | VBool (b : bool)
  | VInt (z : Z)
  | VBytes (b : list N)
  | VStr (s : str).

Definition isinstance_str (v : value) : option str :=
  match v with VStr s => Some s | _ => None end.

Definition isinstance_int (v : value) : option Z :=
  match v with
  | VInt z => Some z
  | VBool b => Some (if b then 1 else 0)
  | _ => None
  end.

(** The exceptions of the module.  [IOError] is an alias of [OSError];
    [msg] is what [str(e)] gives. *)
Inductive exn :=
  | TypeError (msg : str)
  | OSError (msg : str).

Inductive result (A : Type) :=
  | Return (a : A)
  | Raise (e : exn).
Arguments Return {A} a.
Arguments Raise {A} e.

Definition bind {A B} (r : result A) (k : A → result B) : result B :=
  match r with Return a => k a | Raise e => Raise e end.

(** [try: r except IOError as e: raise IOError(f"Error reading file: {e}")] *)
Definition reraise_read_error {A} (r : result A) : result A :=
  match r with
  | Raise (OSError cause) => Raise (OSError (lit "Error reading file: " ++ cause))
  | _ => r
  end.

(** *** Characters *)

(** [Py_UNICODE_ISSPACE]: the characters [\s] matches in a [str] pattern and
    the ones [str.split()] separates on. *)
Definition isspace (c : N) : bool :=
  ((9 <=? c) && (c <=? 13) || (28 <=? c) && (c <=? 32)
   || (c =? 133) || (c =? 160) || (c =? 5760)
   || (8192 <=? c) && (c <=? 8202)
   || (c =? 8232) || (c =? 8233) || (c =? 8239) || (c =? 8287)
   || (c =? 12288))%N.

Definition isupper_ascii (c : N) : bool := ((65 <=? c) && (c <=? 90))%N.
Definition islower_ascii (c : N) : bool := ((97 <=? c) && (c <=? 122))%N.
Definition isdigit_ascii (c : N) : bool := ((48 <=? c) && (c <=? 57))%N.

(** The complement of the class [[^A-Za-z0-9\s]]. *)
Definition kept (c : N) : bool :=
  isupper_ascii c || islower_ascii c || isdigit_ascii c || isspace c.

(** [re.sub(r'[^A-Za-z0-9\s]', '', data)]: every character of the class is
    replaced by nothing. *)
Definition re_sub_special (data : str) : str := List.filter kept data.

(** [str.lower] on the characters that survive [re_sub_special], the only
    ones the module lowers: an ASCII capital moves to its small letter,
    digits and white space stay. *)
Definition lower_char (c : N) : N :=
  if isupper_ascii c then (c + 32)%N else c.

Definition lower (s : str) : str := lower_char <$> s.

(** *** [str.split()] and [str.split(sep)] *)

(** [split_from cur s]: [cur] is the word being scanned. *)
Fixpoint split_from (cur s : str) : list str :=
  match s with
  | [] => match cur with [] => [] | _ => [cur] end
  | c :: s' =>
      if isspace c
      then match cur with
           | [] => split_from [] s'
           | _ => cur :: split_from [] s'
           end
      else split_from (cur ++ [c]) s'
  end.

(** [s.split()]: the maximal runs of characters that are not white space. *)
Definition split (s : str) : list str := split_from [] s.

Fixpoint split_on_from (sep : N) (cur s : str) : list str :=
  match s with
  | [] => [cur]
  | c :: s' =>
      if (c =? sep)%N
      then cur :: split_on_from sep [] s'
      else split_on_from sep (cur ++ [c]) s'
  end.

(** [s.split(sep)] for a separator of one character. *)
Definition split_on (sep : N) (s : str) : list str := split_on_from sep [] s.

Definition newline : N := 10%N.

(** *** Sequences *)

Definition len {A} (l : list A) : Z := Z.of_nat (length l).

(** [range(n)] *)
Definition range (n : Z) : list Z := Z.of_nat <$> seq 0 (Z.to_nat n).

(** A slice bound against a sequence of length [n]: a negative bound counts
    from the end, and both are clipped to [0..n]. *)
Definition adjust (n i : Z) : Z :=
  if i <? 0 then Z.max (i + n) 0 else Z.min i n.

(** [l[start:stop]] *)
Definition slice {A} (l : list A) (start stop : Z) : list A :=
  let lo := adjust (len l) start in
  let hi := adjust (len l) stop in
  take (Z.to_nat (hi - lo)) (drop (Z.to_nat lo) l).

(** [filter(f, l)]: with [f = None] the elements that are true, which for a
    [str] means not empty. *)
Definition truthy (s : str) : bool :=
  match s with [] => false | _ => true end.

Definition filter (f : option (str → bool)) (l : list str) : list str :=
  List.filter (default truthy f) l.

(** *** Files *)

(** What a path names.  For a file, [rows] are the lines [for row in file]
    produces, line terminators included, and [fault] is the [OSError] that
    ends the reading, if one does: raised by [open] when [rows] is empty, by
    a later read otherwise. *)
Inductive entry :=
  | NoFile
  | File (rows : list str) (fault : option str).

Definition world := str → entry.

(** [os.path.isfile] *)
Definition isfile (w : world) (path : str) : bool :=
  match w path with File _ _ => true | NoFile => false end.

(** [open(path, 'r')] followed by the reading: the rows and the fault.  A
    path that names no file makes [open] raise [FileNotFoundError], an
    [OSError]. *)
Definition open (w : world) (path : str) : list str * option str :=
  match w path with
  | File rows fault => (rows, fault)
  | NoFile => ([], Some (lit "[Errno 2] No such file or directory"))
  end.

(** [with open(path, 'r') as file: for row in file: body(row)], the state
    of the enclosing function threaded through [body]. *)
Definition for_row_in_file {S} (rows : list str) (fault : option str)
    (body : str → S → S) (s : S) : result S :=
  let s' := fold_left (λ acc row, body row acc) rows s in
  match fault with
  | None => Return s'
  | Some cause => Raise (OSError cause)
  end.

(** *** Generators *)

(** What one [next] on a generator gives. *)
Inductive pulled (G : Type) :=
  | Yield (v : str) (g : G)
  | StopIteration
  | Raised (e : exn).
Arguments Yield {G} v g.
Arguments StopIteration {G}.
Arguments Raised {G} e.

(** [list(g)] for a generator whose [next] is [next]: pull until the
    generator stops or raises.  [None] only when [fuel] runs out. *)
Fixpoint list_fuel {G} (next : G → list str * pulled G) (fuel : nat) (g : G)
    : option (list str * result (list str)) :=
  match fuel with
  | O => None
  | S fuel =>
      match next g with
      | (out, Yield v g') =>
          match list_fuel next fuel g' with
          | Some (out', r) => Some (out ++ out', bind r (λ l, Return (v :: l)))
          | None => None
          end
      | (out, StopIteration) => Some (out, Return [])
      | (out, Raised e) => Some (out, Raise e)
      end
  end.

End Py.

(** ** The module *)

Module TextToolkit.
Import Py.

Definition not_str_msg : str :=
  lit "Only 'str' data with text or filepath allowed".
Definition not_int_msg : str :=
  lit "For 'window', only integer are allowed".

(** *** word_frequency *)

Definition count_word_frequency (data : str) (filter_func : option (str → bool))
    (freq_words : gmap str Z) : gmap str Z :=
  let string_cleaned := re_sub_special data in
  let string_cleaned := lower string_cleaned in
  let string_cleaned := split string_cleaned in
  let string_cleaned := Py.filter filter_func string_cleaned in
  fold_left
    (λ (freq_words : gmap str Z) data,
       match freq_words !! data with
       | Some c => <[data := c + 1]> freq_words
       | None => <[data := 1]> freq_words
       end)
    string_cleaned freq_words.

Definition word_frequency (w : world) (text_or_file : value)
    (filter_func : option (str → bool)) : result (gmap str Z) :=
  let freq_words : gmap str Z := ∅ in
  match isinstance_str text_or_file with
  | None => Raise (TypeError not_str_msg)
  | Some text =>
      if isfile w text then
        let '(rows, fault) := open w text in
        for_row_in_file rows fault
          (λ row freq_words, count_word_frequency row filter_func freq_words)
          freq_words
      else Return (count_word_frequency text filter_func freq_words)
  end.

(** *** unique_words *)

Definition count_unique_words (data : str) (unique_words_txt : gset str)
    : gset str :=
  let string_cleaned := re_sub_special data in
  let string_cleaned := lower string_cleaned in
  let curr_unique_words : gset str := list_to_set (split string_cleaned) in
  unique_words_txt ∪ curr_unique_words.

Definition unique_words (w : world) (text_or_file : value)
    : result (gset str) :=
  let unique_words_txt : gset str := ∅ in
  match isinstance_str text_or_file with
  | None => Raise (TypeError not_str_msg)
  | Some text =>
      if isfile w text then
        let '(rows, fault) := open w text in
        reraise_read_error
          (for_row_in_file rows fault count_unique_words unique_words_txt)
      else Return (count_unique_words text unique_words_txt)
  end.

(** *** word_co_occurrence_matrix *)

Definition process_co_occurance (data : str) (window : Z)
    (co_words_list : list (list str)) : list (list str) :=
  let string_cleaned := lower (re_sub_special data) in
  let string_cleaned := split string_cleaned in
  fold_left
    (λ co_words_list index,
       let co_word_pair := slice string_cleaned index (index + window) in
       co_words_list ++ [co_word_pair])
    (range (len string_cleaned - window)) co_words_list.

Definition word_co_occurrence_matrix (w : world) (text_or_file window : value)
    : result (list (list str)) :=
  match isinstance_str text_or_file with
  | None => Raise (TypeError not_str_msg)
  | Some text =>
      match isinstance_int window with
      | None => Raise (TypeError not_int_msg)
      | Some window =>
          let co_words_list : list (list str) := [] in
          if isfile w text then
            let '(rows, fault) := open w text in
            reraise_read_error
              (for_row_in_file rows fault
                 (λ row co_words_list, process_co_occurance row window co_words_list)
                 co_words_list)
          else Return (process_co_occurance text window co_words_list)
      end
  end.

(** *** text_generator *)

(** The generator object: where its body is suspended.  [GCreated] is the
    generator as the call returns it, no statement of the body run yet;
    [GRows] is inside [for row in file], [GData] inside
    [for data in string_cleaned]. *)
Inductive generator :=
  | GCreated (text_or_file : value)
  | GRows (rows : list str) (fault : option str)
  | GData (string_cleaned : list str)
  | GFinished.

(** Calling a generator function runs none of its body. *)
Definition text_generator (text_or_file : value) : result generator :=
  Return (GCreated text_or_file).

(** Resuming inside one of the two loops: the lines printed and what the
    caller of [next] receives. *)
Definition resume (g : generator) : list str * pulled generator :=
  match g with
  | GRows (row :: rows) fault => ([], Yield row (GRows rows fault))
  | GRows [] None => ([], StopIteration)
  | GRows [] (Some cause) => ([lit "Error reading file: " ++ cause], StopIteration)
  | GData (data :: string_cleaned) => ([], Yield data (GData string_cleaned))
  | GData [] => ([], StopIteration)
  | GCreated _ | GFinished => ([], StopIteration)
  end.

(** [next(g)] *)
Definition next (w : world) (g : generator) : list str * pulled generator :=
  match g with
  | GCreated text_or_file =>
      match isinstance_str text_or_file with
      | None => ([], Raised (TypeError not_str_msg))
      | Some text =>
          if isfile w text then
            let '(rows, fault) := open w text in
            resume (GRows rows fault)
          else
            let string_cleaned := lower (re_sub_special text) in
            let string_cleaned := split_on newline string_cleaned in
            resume (GData string_cleaned)
      end
  | _ => resume g
  end.

(** [list(g)] in closed form: the printed lines and the list built, or the
    exception that ended the iteration.  [list_of_adequate] below relates it
    to pulling with [next]. *)
Definition list_of (w : world) (g : generator) : list str * result (list str) :=
  let diagnostic (fault : option str) : list str :=
    match fault with
    | None => []
    | Some cause => [lit "Error reading file: " ++ cause]
    end in
  match g with
  | GCreated text_or_file =>
      match isinstance_str text_or_file with
      | None => ([], Raise (TypeError not_str_msg))
      | Some text =>
          if isfile w text then
            let '(rows, fault) := open w text in
            (diagnostic fault, Return rows)
          else ([], Return (split_on newline (lower (re_sub_special text))))
      end
  | GRows rows fault => (diagnostic fault, Return rows)
  | GData string_cleaned => ([], Return string_cleaned)
  | GFinished => ([], Return [])
  end.

(** The number of [next] calls [list(g)] makes. *)
Definition pulls (w : world) (g : generator) : nat :=
  match g with
  | GCreated text_or_file =>
      match isinstance_str text_or_file with
      | None => 1
      | Some text =>
          if isfile w text then S (length (open w text).1)
          else S (length (split_on newline (lower (re_sub_special text))))
      end
  | GRows rows _ => S (length rows)
  | GData string_cleaned => S (length string_cleaned)
  | GFinished => 1
  end.

End TextToolkit.

(** ** Notions the specification talks about *)

Module Spec.
Import Py TextToolkit.

(** The normalizer: delete what is neither alphanumeric nor white space,
    lowercase, split on runs of white space. *)
Definition normalized_words (chunk : str) : list str :=
  split (lower (re_sub_special chunk)).

(** The tuples one chunk contributes for a window: [words[i : i+window]] for
    the start indices [0 <= i < word_count - window], in that order. *)
Definition chunk_tuples (words : list str) (window : Z) : list (list str) :=
  (λ i, slice words i (i + window)) <$> range (len words - window).

(** [sum(freq.values())] *)
Definition sum_values (freq : gmap str Z) : Z :=
  map_fold (λ _ count total, count + total) 0 freq.

(** [sep.join(segments)] *)
Definition join (sep : N) (segments : list str) : str :=
  match segments with
  | [] => []
  | first :: rest => first ++ concat ((λ seg, sep :: seg) <$> rest)
  end.

Definition raises_TypeError {A} (r : result A) : Prop :=
  ∃ msg, r = Raise (TypeError msg).

(** A file system with no file at all. *)
Definition no_files : world := λ _, NoFile.

(** A file system whose only file is [path]. *)
Definition one_file (path : str) (rows : list str) (fault : option str)
    : world :=
  λ p, if decide (p = path) then File rows fault else NoFile.

(** A file [notes.txt] whose reading fails after its first line. *)
Definition faulty_notes : world :=
  one_file (lit "notes.txt") [lit "First line" ++ [newline]]
    (Some (lit "[Errno 5] Input/output error")).

(** The text of a chunk after the deletion and the lowercasing, before any
    split. *)
Definition normalize (chunk : str) : str := lower (re_sub_special chunk).

(** [words.count(word)] *)
Definition occurrences (word : str) (words : list str) : Z :=
  len (List.filter (λ x, bool_decide (x = word)) words).

(** [text.count(c)] for a character. *)
Definition count_char (c : N) (text : str) : Z :=
  len (List.filter (λ x, (x =? c)%N) text).

(** The chunks a call processes: the rows of the file the string names, or
    the string itself as one chunk. *)
Definition chunks_of (w : world) (text_or_file : str) : list str :=
  if isfile w text_or_file then (open w text_or_file).1 else [text_or_file].

(** The words a call counts: those of its chunks that pass the filter. *)
Definition counted_words (w : world) (text_or_file : str)
    (filter_func : option (str → bool)) : list str :=
  concat ((λ chunk, Py.filter filter_func (normalized_words chunk))
            <$> chunks_of w text_or_file).

(** The characters of a normalized word: small ASCII letters and digits. *)
Definition is_word_char (c : N) : bool := islower_ascii c || isdigit_ascii c.

Definition is_alnum (c : N) : bool :=
  isupper_ascii c || islower_ascii c || isdigit_ascii c.

(** A row that ends in a white-space character, as every line of a text
    file but possibly the last does. *)
Definition ends_in_space (row : str) : Prop :=
  ∃ body c, row = body ++ [c] ∧ isspace c = true.

(** A file [poem.txt] of two lines that reads without fault. *)
Definition poem_rows : list str :=
  [lit "The cat, the Hat!" ++ [newline]; lit "the end" ++ [newline]].

Definition poem : world := one_file (lit "poem.txt") poem_rows None.

End Spec.

(** ** Facts about the Python fragment *)

Section PyFacts.
Import Py Spec.

Lemma filter_all_true {A} (f : A → bool) (l : list A) :
  Forall (λ x, f x = true) l → List.filter f l = l.
Proof.
  induction 1 as [|x l Hx _ IH]; simpl; [done|].
  by rewrite Hx, IH.
Qed.

(** What the substitution leaves is ASCII letters, digits and white space,
    the characters [lower_char] is [str.lower] on. *)
Lemma re_sub_special_kept data :
  Forall (λ c, kept c = true) (re_sub_special data).
Proof.
  unfold re_sub_special. induction data as [|c data IH]; simpl; [constructor|].
  destruct (kept c) eqn:Hc; [by constructor|done].
Qed.

(** A word [split] produces is never empty. *)
Lemma split_from_nonempty cur s :
  Forall (λ word, word ≠ []) (split_from cur s).
Proof.
  revert cur. induction s as [|c s IH]; intros cur; simpl.
  - destruct cur; repeat constructor; done.
  - destruct (isspace c); [|apply IH].
    destruct cur; [apply IH|].
    constructor; [done|apply IH].
Qed.

(** ... and holds no white space. *)
Lemma split_from_no_space cur s :
  Forall (λ c, isspace c = false) cur →
  Forall (Forall (λ c, isspace c = false)) (split_from cur s).
Proof.
  revert cur. induction s as [|c s IH]; intros cur Hcur; simpl.
  - destruct cur; [constructor|]. by constructor.
  - destruct (isspace c) eqn:Hc.
    + destruct cur; [by apply IH|].
      constructor; [done|by apply IH].
    + apply IH, Forall_app. split; [done|]. by repeat constructor.
Qed.

(** The words, run together, are the text without its white space. *)
Lemma split_from_concat cur s :
  concat (split_from cur s) = cur ++ List.filter (λ c, negb (isspace c)) s.
Proof.
  revert cur. induction s as [|c s IH]; intros cur; simpl.
  - destruct cur; simpl; [done|]. by rewrite !app_nil_r.
  - destruct (isspace c); simpl.
    + destruct cur; simpl; by rewrite IH.
    + by rewrite IH, <- app_assoc.
Qed.

(** [filter(None, words)] drops nothing from what [split] returns. *)
Lemma filter_None_split s : Py.filter None (split s) = split s.
Proof.
  apply filter_all_true. unfold split.
  eapply Forall_impl; [apply split_from_nonempty|].
  intros [|c word] Hne; simpl; congruence.
Qed.

Lemma fold_left_snoc {A B} (f : B → A) (l : list B) (acc : list A) :
  fold_left (λ acc x, acc ++ [f x]) l acc = acc ++ (f <$> l).
Proof.
  revert acc. induction l as [|x l IH]; intros acc; simpl.
  - by rewrite app_nil_r.
  - by rewrite IH, <- app_assoc.
Qed.

Lemma range_nonpos n : n ≤ 0 → range n = [].
Proof. intros Hn. unfold range. by replace (Z.to_nat n) with 0%nat by lia. Qed.

Lemma length_range n : length (range n) = Z.to_nat n.
Proof. unfold range. by rewrite length_fmap, length_seq. Qed.

Lemma range_lookup n (i : nat) :
  (i < Z.to_nat n)%nat → range n !! i = Some (Z.of_nat i).
Proof.
  intros Hi. unfold range. rewrite list_lookup_fmap.
  by rewrite lookup_seq_lt.
Qed.


(** A window that fits: the slice is the [k] elements from position [i]. *)
Lemma slice_window {A} (l : list A) i k :
  0 ≤ i → 0 ≤ k → i + k ≤ len l →
  slice l i (i + k) = take (Z.to_nat k) (drop (Z.to_nat i) l)
  ∧ len (slice l i (i + k)) = k.
Proof.
  intros Hi Hk Hfit. unfold slice, adjust, len in *.
  destruct (Z.ltb_spec i 0); [lia|].
  destruct (Z.ltb_spec (i + k) 0); [lia|].
  replace (Z.min i (Z.of_nat (length l))) with i by lia.
  replace (Z.min (i + k) (Z.of_nat (length l)) - i) with k by lia.
  split; [done|].
  rewrite length_take, length_drop. lia.
Qed.

Lemma join_cons sep seg seg' rest :
  join sep (seg :: seg' :: rest) = seg ++ sep :: join sep (seg' :: rest).
Proof. done. Qed.

Lemma split_on_from_cons sep cur s :
  ∃ seg rest, split_on_from sep cur s = seg :: rest.
Proof.
  destruct s as [|c s]; simpl; [by eauto|].
  destruct (c =? sep)%N; [by eauto|].
  revert cur c. induction s as [|c' s IH]; intros cur c; simpl; [by eauto|].
  destruct (c' =? sep)%N; [by eauto|]. apply IH.
Qed.

(** Joining the segments with the separator gives the text back. *)
Lemma join_split_on_from sep cur s :
  join sep (split_on_from sep cur s) = cur ++ s.
Proof.
  revert cur. induction s as [|c s IH]; intros cur; simpl.
  - by rewrite !app_nil_r.
  - destruct (N.eqb_spec c sep) as [->|Hne].
    + destruct (split_on_from_cons sep [] s) as (seg & rest & Hs).
      specialize (IH []). rewrite Hs in *.
      by rewrite join_cons, IH.
    + by rewrite IH, <- app_assoc.
Qed.

(** No segment holds the separator. *)
Lemma split_on_from_no_sep sep cur s :
  sep ∉ cur → Forall (λ seg, sep ∉ seg) (split_on_from sep cur s).
Proof.
  revert cur. induction s as [|c s IH]; intros cur Hcur; simpl.
  - by repeat constructor.
  - destruct (N.eqb_spec c sep) as [->|Hne].
    + constructor; [done|]. apply IH, not_elem_of_nil.
    + apply IH.
      intros [Hin| ->%list_elem_of_singleton]%elem_of_app; [by apply Hcur|done].
Qed.

End PyFacts.

(** ** Facts about the four functions *)

Section ToolkitFacts.
Import Py TextToolkit Spec.

Lemma sum_values_insert_fresh (freq : gmap str Z) word count :
  freq !! word = None →
  sum_values (<[word := count]> freq) = count + sum_values freq.
Proof.
  intros Hfresh. unfold sum_values.
  apply (map_fold_insert_L (λ _ count total, count + total)); [|done].
  intros; lia.
Qed.

Lemma sum_values_delete (freq : gmap str Z) word count :
  freq !! word = Some count →
  sum_values freq = count + sum_values (delete word freq).
Proof.
  intros Hin. unfold sum_values.
  apply (map_fold_delete_L (λ _ count total, count + total)); [|done].
  intros; lia.
Qed.

Lemma sum_values_bump (freq : gmap str Z) word count :
  freq !! word = Some count →
  sum_values (<[word := count + 1]> freq) = 1 + sum_values freq.
Proof.
  intros Hin. rewrite <- insert_delete_eq.
  rewrite sum_values_insert_fresh by apply lookup_delete_eq.
  rewrite (sum_values_delete freq word count Hin). lia.
Qed.

(** The counting loop of [count_word_frequency]. *)
Local Abbreviation count_loop :=
  (fold_left
     (λ (freq_words : gmap str Z) data,
        match freq_words !! data with
        | Some c => <[data := c + 1]> freq_words
        | None => <[data := 1]> freq_words
        end)).

Lemma count_loop_dom (words : list str) (freq : gmap str Z) :
  dom (count_loop words freq) = dom freq ∪ list_to_set words.
Proof.
  revert freq. induction words as [|word words IH]; intros freq; simpl.
  - set_solver.
  - rewrite IH. destruct (freq !! word); rewrite dom_insert_L; set_solver.
Qed.

Lemma count_loop_sum (words : list str) (freq : gmap str Z) :
  sum_values (count_loop words freq) = sum_values freq + len words.
Proof.
  revert freq. induction words as [|word words IH]; intros freq.
  - unfold len; simpl. lia.
  - cbn [fold_left]. rewrite IH. unfold len; cbn [length].
    destruct (freq !! word) as [count|] eqn:Hword.
    + rewrite (sum_values_bump _ _ _ Hword). lia.
    + rewrite (sum_values_insert_fresh _ _ _ Hword). lia.
Qed.


Lemma count_word_frequency_unfold data filter_func freq :
  count_word_frequency data filter_func freq
  = count_loop (Py.filter filter_func (normalized_words data)) freq.
Proof. done. Qed.

Lemma count_unique_words_unfold data seen :
  count_unique_words data seen = seen ∪ list_to_set (normalized_words data).
Proof. done. Qed.

Lemma process_co_occurance_unfold data window co_words_list :
  process_co_occurance data window co_words_list
  = co_words_list ++ chunk_tuples (normalized_words data) window.
Proof. unfold process_co_occurance. apply fold_left_snoc. Qed.

(** The rows of a file, processed one after the other. *)
Lemma rows_co_occurance window rows co_words_list :
  fold_left (λ acc row, process_co_occurance row window acc) rows co_words_list
  = co_words_list
    ++ concat ((λ row, chunk_tuples (normalized_words row) window) <$> rows).
Proof.
  revert co_words_list.
  induction rows as [|row rows IH]; intros co_words_list; simpl.
  - by rewrite app_nil_r.
  - by rewrite IH, process_co_occurance_unfold, <- app_assoc.
Qed.

Lemma rows_dom (rows : list str) (freq : gmap str Z) :
  dom (fold_left (λ acc row, count_word_frequency row None acc) rows freq)
  = fold_left (λ acc row, count_unique_words row acc) rows (dom freq).
Proof.
  revert freq. induction rows as [|row rows IH]; intros freq; simpl; [done|].
  rewrite IH. f_equal.
  rewrite count_word_frequency_unfold, count_unique_words_unfold.
  unfold normalized_words. by rewrite filter_None_split, count_loop_dom.
Qed.

End ToolkitFacts.

(** ** word_co_occurrence_matrix *)

Section CoOccurrence.
Import Py TextToolkit Spec.

Lemma length_chunk_tuples words window :
  length (chunk_tuples words window) = Z.to_nat (len words - window).
Proof. unfold chunk_tuples. by rewrite length_fmap, length_range. Qed.

(** For a window that is not negative, the tuple at start index [i] is the
    [window] words from position [i] on. *)
Lemma chunk_tuples_lookup words window (i : nat) :
  0 ≤ window → (i < Z.to_nat (len words - window))%nat →
  chunk_tuples words window !! i
  = Some (take (Z.to_nat window) (drop i words)).
Proof.
  intros Hwindow Hi. unfold chunk_tuples.
  rewrite list_lookup_fmap, (range_lookup _ _ Hi). simpl. f_equal.
  destruct (slice_window words (Z.of_nat i) window) as [-> _]; [lia..|].
  by rewrite Nat2Z.id.
Qed.

Lemma word_co_occurrence_matrix_text w text win window :
  isinstance_int win = Some window → isfile w text = false →
  word_co_occurrence_matrix w (VStr text) win
  = Return (chunk_tuples (normalized_words text) window).
Proof.
  intros Hwin Hfile. unfold word_co_occurrence_matrix.
  cbn [isinstance_str]. rewrite Hwin, Hfile.
  by rewrite process_co_occurance_unfold.
Qed.

Lemma word_co_occurrence_matrix_file w path win window rows :
  isinstance_int win = Some window → w path = File rows None →
  word_co_occurrence_matrix w (VStr path) win
  = Return (concat
      ((λ row, chunk_tuples (normalized_words row) window) <$> rows)).
Proof.
  intros Hwin Hfile. unfold word_co_occurrence_matrix, isfile, open.
  cbn [isinstance_str]. rewrite Hwin, Hfile.
  unfold for_row_in_file. cbn [reraise_read_error].
  by rewrite rows_co_occurance.
Qed.

(** C1.  On the literal text "the quick brown fox" with window 2 the code
    returns the two tuples (the, quick) and (quick, brown): the loop stops
    one start index short of the last pair, so the list is not the three
    tuples of the scenario. *)
Theorem co_occurrence_quick_brown_fox w :
  isfile w (lit "the quick brown fox") = false →
  word_co_occurrence_matrix w (VStr (lit "the quick brown fox")) (VInt 2)
  = Return [[lit "the"; lit "quick"]; [lit "quick"; lit "brown"]]
  ∧ word_co_occurrence_matrix w (VStr (lit "the quick brown fox")) (VInt 2)
    ≠ Return [[lit "the"; lit "quick"]; [lit "quick"; lit "brown"];
              [lit "brown"; lit "fox"]].
Proof.
  intros Hfile.
  rewrite (word_co_occurrence_matrix_text w _ (VInt 2) 2 eq_refl Hfile).
  split; [by vm_compute|]. vm_compute. intros [=].
Qed.

Lemma co_occurrence_quick_brown_fox_witness :
  isfile no_files (lit "the quick brown fox") = false
  ∧ word_co_occurrence_matrix no_files
      (VStr (lit "the quick brown fox")) (VInt 2)
    = Return [[lit "the"; lit "quick"]; [lit "quick"; lit "brown"]].
Proof.
  split; [reflexivity|].
  apply (co_occurrence_quick_brown_fox no_files). reflexivity.
Defined.

(** C3.  With window 1 a literal text of [n] normalized words gives
    [max 0 (n - 1)] tuples, one fewer than its words whenever it has any:
    "hello world" gives the single tuple (hello,). *)
Theorem co_occurrence_window_one w text :
  isfile w text = false →
  ∃ tuples,
    word_co_occurrence_matrix w (VStr text) (VInt 1) = Return tuples
    ∧ len tuples = Z.max 0 (len (normalized_words text) - 1)
    ∧ (text = lit "hello world" → tuples = [[lit "hello"]]).
Proof.
  intros Hfile. eexists. split; [|split].
  - by apply word_co_occurrence_matrix_text.
  - unfold len at 1. rewrite length_chunk_tuples. lia.
  - by intros ->.
Qed.

Lemma co_occurrence_window_one_witness :
  isfile no_files (lit "hello world") = false
  ∧ ∃ tuples,
      word_co_occurrence_matrix no_files (VStr (lit "hello world")) (VInt 1)
      = Return tuples
      ∧ len tuples = 1.
Proof.
  split; [reflexivity|].
  destruct (co_occurrence_window_one no_files (lit "hello world") eq_refl)
    as (tuples & Hcall & Hlen & _).
  exists tuples. split; [exact Hcall|]. rewrite Hlen. reflexivity.
Defined.

(** C4.  For every chunk and every integer window the code appends, per
    chunk, the tuples [words[i : i+window]] for the start indices
    [0 <= i < word_count - window] in increasing order: a literal text is one
    chunk, the rows of a file are chunks of their own.  When the window is
    not negative the tuple at [i] is the [window] words from position [i];
    a chunk with fewer words than the window contributes nothing, and
    [word_co_occurrence_matrix("ab", window=3)] is the empty list. *)
Theorem co_occurrence_tuples w win window :
  isinstance_int win = Some window →
  (∀ chunk co_words_list,
     process_co_occurance chunk window co_words_list
     = co_words_list ++ chunk_tuples (normalized_words chunk) window)
  ∧ (∀ text, isfile w text = false →
       word_co_occurrence_matrix w (VStr text) win
       = Return (chunk_tuples (normalized_words text) window))
  ∧ (∀ path rows, w path = File rows None →
       word_co_occurrence_matrix w (VStr path) win
       = Return (concat
           ((λ row, chunk_tuples (normalized_words row) window) <$> rows)))
  ∧ (∀ words, length (chunk_tuples words window)
              = Z.to_nat (len words - window))
  ∧ (∀ words (i : nat), 0 ≤ window →
       (i < Z.to_nat (len words - window))%nat →
       chunk_tuples words window !! i
       = Some (take (Z.to_nat window) (drop i words)))
  ∧ (∀ words, len words < window → chunk_tuples words window = [])
  ∧ (win = VInt 3 → isfile w (lit "ab") = false →
       word_co_occurrence_matrix w (VStr (lit "ab")) win = Return []).
Proof.
  intros Hwin. repeat split.
  - intros chunk co_words_list. apply process_co_occurance_unfold.
  - intros text Hfile. by apply word_co_occurrence_matrix_text.
  - intros path rows Hfile. by apply word_co_occurrence_matrix_file.
  - intros words. apply length_chunk_tuples.
  - intros words i. apply chunk_tuples_lookup.
  - intros words Hshort. unfold chunk_tuples. rewrite range_nonpos; [done|lia].
  - intros -> Hfile.
    by rewrite (word_co_occurrence_matrix_text w _ (VInt 3) 3 eq_refl Hfile).
Qed.

Lemma co_occurrence_tuples_witness :
  isinstance_int (VInt 3) = Some 3
  ∧ isfile no_files (lit "ab") = false
  ∧ word_co_occurrence_matrix no_files (VStr (lit "ab")) (VInt 3) = Return [].
Proof.
  split; [reflexivity|]. split; [reflexivity|].
  destruct (co_occurrence_tuples no_files (VInt 3) 3 eq_refl)
    as (_ & _ & _ & _ & _ & _ & Hab).
  apply Hab; reflexivity.
Defined.

End CoOccurrence.

(** ** word_frequency and unique_words *)

Section Frequency.
Import Py TextToolkit Spec.

Lemma word_frequency_text w text filter_func :
  isfile w text = false →
  word_frequency w (VStr text) filter_func
  = Return (count_word_frequency text filter_func ∅).
Proof.
  intros Hfile. unfold word_frequency. cbn [isinstance_str]. by rewrite Hfile.
Qed.

(** C2, as the code has it.  On the literal text "This is a test text. This
    test is only a test." and no filter, [word_frequency] returns the map
    this:2, is:2, a:2, test:3, text:1, only:1: the word "a" occurs twice in
    the text. *)
Theorem word_frequency_test_text w :
  isfile w (lit "This is a test text. This test is only a test.") = false →
  word_frequency w
    (VStr (lit "This is a test text. This test is only a test.")) None
  = Return (list_to_map
      [(lit "this", 2); (lit "is", 2); (lit "a", 2); (lit "test", 3);
       (lit "text", 1); (lit "only", 1)]).
Proof.
  intros Hfile. rewrite (word_frequency_text _ _ _ Hfile).
  by vm_compute.
Qed.

Lemma word_frequency_test_text_witness :
  isfile no_files (lit "This is a test text. This test is only a test.")
  = false
  ∧ word_frequency no_files
      (VStr (lit "This is a test text. This test is only a test.")) None
    = Return (list_to_map
        [(lit "this", 2); (lit "is", 2); (lit "a", 2); (lit "test", 3);
         (lit "text", 1); (lit "only", 1)]).
Proof.
  split; [reflexivity|].
  apply (word_frequency_test_text no_files). reflexivity.
Defined.

(** C2, as stated, fails: the map returned for that text is not the one that
    counts "a" once. *)
Lemma word_frequency_test_text_not_a_once :
  word_frequency no_files
    (VStr (lit "This is a test text. This test is only a test.")) None
  ≠ Return (list_to_map
      [(lit "this", 2); (lit "is", 2); (lit "a", 1); (lit "test", 3);
       (lit "text", 1); (lit "only", 1)]).
Proof.
  intros Heq.
  assert (Hlookup : ∀ freq_words : gmap str Z,
    word_frequency no_files
      (VStr (lit "This is a test text. This test is only a test.")) None
    = Return freq_words → freq_words !! lit "a" = Some 2).
  { intros freq_words. rewrite (word_frequency_text no_files _ _ eq_refl).
    intros [= <-]. by vm_compute. }
  apply Hlookup in Heq. vm_compute in Heq. discriminate.
Qed.

(** C5.  For every string, [unique_words] and [word_frequency] without a
    filter either both raise (the string names a file whose reading fails)
    or both return, and then the set of the one is the key set of the map of
    the other. *)
Theorem unique_words_keys_of_word_frequency w text :
  match unique_words w (VStr text), word_frequency w (VStr text) None with
  | Return unique_words_txt, Return freq_words =>
      unique_words_txt = dom freq_words
  | Raise _, Raise _ => True
  | _, _ => False
  end.
Proof.
  unfold unique_words, word_frequency. cbn [isinstance_str].
  destruct (isfile w text).
  - destruct (open w text) as [rows [cause|]]; unfold for_row_in_file; [done|].
    cbn [reraise_read_error]. by rewrite rows_dom, dom_empty_L.
  - rewrite count_word_frequency_unfold, count_unique_words_unfold.
    unfold normalized_words.
    by rewrite filter_None_split, count_loop_dom, dom_empty_L.
Qed.

(** C6.  For every literal text, the values of the map [word_frequency]
    returns without a filter add up to the number of normalized tokens of
    the text: what is left after deleting the characters outside
    [A-Za-z0-9] and white space, lowercasing, and splitting on white
    space. *)
Theorem word_frequency_sum_values w text :
  isfile w text = false →
  ∃ freq_words,
    word_frequency w (VStr text) None = Return freq_words
    ∧ sum_values freq_words = len (normalized_words text).
Proof.
  intros Hfile. eexists. split; [by apply word_frequency_text|].
  rewrite count_word_frequency_unfold, count_loop_sum.
  unfold normalized_words. rewrite filter_None_split.
  unfold sum_values. by rewrite map_fold_empty.
Qed.

Lemma word_frequency_sum_values_witness :
  isfile no_files (lit "Don't stop, don't STOP!") = false
  ∧ ∃ freq_words,
      word_frequency no_files (VStr (lit "Don't stop, don't STOP!")) None
      = Return freq_words
      ∧ sum_values freq_words = 4.
Proof.
  split; [reflexivity|].
  destruct (word_frequency_sum_values no_files
              (lit "Don't stop, don't STOP!") eq_refl)
    as (freq_words & Hcall & Hsum).
  exists freq_words. split; [exact Hcall|]. rewrite Hsum. reflexivity.
Defined.

End Frequency.

(** ** The generator, pulled to exhaustion *)

Section GeneratorFacts.
Import Py TextToolkit Spec.

(** Pulling with [next] until the generator is exhausted gives [list_of],
    as soon as the fuel covers the pulls. *)
Lemma list_fuel_rows w rows fault fuel :
  (length rows < fuel)%nat →
  list_fuel (next w) fuel (GRows rows fault)
  = Some (list_of w (GRows rows fault)).
Proof.
  revert fuel. induction rows as [|row rows IH]; intros [|fuel] Hfuel;
    simpl in Hfuel; try lia.
  - by destruct fault.
  - cbn [list_fuel next resume]. rewrite IH by lia. done.
Qed.

Lemma list_fuel_data w string_cleaned fuel :
  (length string_cleaned < fuel)%nat →
  list_fuel (next w) fuel (GData string_cleaned)
  = Some (list_of w (GData string_cleaned)).
Proof.
  revert fuel. induction string_cleaned as [|data string_cleaned IH];
    intros [|fuel] Hfuel; simpl in Hfuel; try lia.
  - done.
  - cbn [list_fuel next resume]. rewrite IH by lia. done.
Qed.

Lemma list_of_adequate w g fuel :
  (pulls w g ≤ fuel)%nat → list_fuel (next w) fuel g = Some (list_of w g).
Proof.
  destruct g as [v|rows fault|string_cleaned|]; cbn [pulls].
  - destruct fuel as [|fuel].
    { destruct (isinstance_str v); [destruct (isfile w _)|]; lia. }
    destruct (isinstance_str v) as [text|] eqn:Hstr.
    + destruct (isfile w text) eqn:Hfile.
      * destruct (open w text) as [rows fault] eqn:Hopen. intros Hfuel.
        transitivity (list_fuel (next w) (S fuel) (GRows rows fault)).
        { cbn [list_fuel next]. by rewrite Hstr, Hfile, Hopen. }
        rewrite list_fuel_rows by (simpl in Hfuel; lia).
        cbn [list_of]. by rewrite Hstr, Hfile, Hopen.
      * intros Hfuel.
        transitivity (list_fuel (next w) (S fuel)
          (GData (split_on newline (lower (re_sub_special text))))).
        { cbn [list_fuel next]. by rewrite Hstr, Hfile. }
        rewrite list_fuel_data by lia.
        cbn [list_of]. by rewrite Hstr, Hfile.
    + intros _. cbn [list_fuel next list_of]. by rewrite Hstr.
  - intros Hfuel. apply list_fuel_rows. lia.
  - intros Hfuel. apply list_fuel_data. lia.
  - by destruct fuel as [|fuel]; [lia|].
Qed.

End GeneratorFacts.

(** ** Errors *)

Section Errors.
Import Py TextToolkit Spec.

Lemma isfile_File w path rows fault :
  w path = File rows fault → isfile w path = true ∧ open w path = (rows, fault).
Proof. intros Hfile. unfold isfile, open. by rewrite Hfile. Qed.

(** C7.  When the reading of an existing file fails after [rows],
    [text_generator] yields those rows, prints the diagnostic and ends, no
    exception reaching the caller; [unique_words] and
    [word_co_occurrence_matrix] raise an [IOError] whose message wraps the
    cause.  [word_frequency], the remaining function, lets the cause
    through as it is, so the quiet ending is the generator's alone. *)
Theorem read_failure_handling w path rows cause filter_func win window :
  w path = File rows (Some cause) →
  isinstance_int win = Some window →
  (∃ g, text_generator (VStr path) = Return g
        ∧ ∀ fuel, (pulls w g ≤ fuel)%nat →
            list_fuel (next w) fuel g
            = Some ([lit "Error reading file: " ++ cause], Return rows))
  ∧ unique_words w (VStr path)
    = Raise (OSError (lit "Error reading file: " ++ cause))
  ∧ word_co_occurrence_matrix w (VStr path) win
    = Raise (OSError (lit "Error reading file: " ++ cause))
  ∧ word_frequency w (VStr path) filter_func = Raise (OSError cause).
Proof.
  intros Hfile Hwin. destruct (isfile_File _ _ _ _ Hfile) as [Hisfile Hopen].
  repeat split.
  - eexists. split; [done|]. intros fuel Hfuel.
    rewrite (list_of_adequate _ _ _ Hfuel).
    cbn [list_of isinstance_str]. by rewrite Hisfile, Hopen.
  - unfold unique_words. cbn [isinstance_str]. by rewrite Hisfile, Hopen.
  - unfold word_co_occurrence_matrix. cbn [isinstance_str].
    by rewrite Hwin, Hisfile, Hopen.
  - unfold word_frequency. cbn [isinstance_str]. by rewrite Hisfile, Hopen.
Qed.

Lemma read_failure_handling_witness :
  faulty_notes (lit "notes.txt")
  = File [lit "First line" ++ [newline]]
      (Some (lit "[Errno 5] Input/output error"))
  ∧ list_fuel (next faulty_notes) 2 (GCreated (VStr (lit "notes.txt")))
    = Some ([lit "Error reading file: [Errno 5] Input/output error"],
            Return [lit "First line" ++ [newline]])
  ∧ unique_words faulty_notes (VStr (lit "notes.txt"))
    = Raise (OSError (lit "Error reading file: [Errno 5] Input/output error")).
Proof.
  split; [reflexivity|].
  destruct (read_failure_handling faulty_notes (lit "notes.txt")
              [lit "First line" ++ [newline]]
              (lit "[Errno 5] Input/output error") None (VInt 2) 2
              eq_refl eq_refl)
    as ((g & Hcall & Hlist) & Hunique & _).
  injection Hcall as <-. split; [|exact Hunique].
  apply (Hlist 2%nat). vm_compute. lia.
Defined.

(** C8, as the code has it.  For a value that is not a string,
    [word_frequency], [unique_words] and [word_co_occurrence_matrix] raise
    [TypeError] when called.  [text_generator] is a generator function: the
    call returns a generator without running the body, and the [TypeError]
    is raised by the first [next], before the file system is looked at. *)
Theorem non_string_input w v filter_func window :
  isinstance_str v = None →
  word_frequency w v filter_func = Raise (TypeError not_str_msg)
  ∧ unique_words w v = Raise (TypeError not_str_msg)
  ∧ word_co_occurrence_matrix w v window = Raise (TypeError not_str_msg)
  ∧ ∃ g, text_generator v = Return g
         ∧ next w g = ([], Raised (TypeError not_str_msg))
         ∧ ∀ fuel, (1 ≤ fuel)%nat →
             list_fuel (next w) fuel g
             = Some ([], Raise (TypeError not_str_msg)).
Proof.
  intros Hstr. repeat split.
  - unfold word_frequency. by rewrite Hstr.
  - unfold unique_words. by rewrite Hstr.
  - unfold word_co_occurrence_matrix. by rewrite Hstr.
  - eexists. split; [done|]. split.
    + cbn [next]. by rewrite Hstr.
    + intros [|fuel] Hfuel; [lia|]. cbn [list_fuel next]. by rewrite Hstr.
Qed.

Lemma non_string_input_witness :
  isinstance_str (VInt 5) = None
  ∧ word_frequency no_files (VInt 5) None = Raise (TypeError not_str_msg)
  ∧ next no_files (GCreated (VInt 5)) = ([], Raised (TypeError not_str_msg)).
Proof.
  split; [reflexivity|].
  destruct (non_string_input no_files (VInt 5) None (VInt 2) eq_refl)
    as (Hfreq & _ & _ & g & Hcall & Hnext & _).
  injection Hcall as <-. split; [exact Hfreq|exact Hnext].
Defined.

(** C8, as stated, fails: called on the number 5, [text_generator] raises
    nothing and returns a generator. *)
Lemma text_generator_call_returns :
  isinstance_str (VInt 5) = None
  ∧ text_generator (VInt 5) = Return (GCreated (VInt 5))
  ∧ ¬ raises_TypeError (text_generator (VInt 5)).
Proof.
  split; [done|]. split; [done|]. intros [msg Hraise]. discriminate Hraise.
Qed.

End Errors.

(** ** text_generator on literal text *)

Section LineIterator.
Import Py TextToolkit Spec.

Lemma list_text_generator_text w text fuel :
  isfile w text = false →
  (pulls w (GCreated (VStr text)) ≤ fuel)%nat →
  list_fuel (next w) fuel (GCreated (VStr text))
  = Some ([], Return (split_on newline (lower (re_sub_special text)))).
Proof.
  intros Hfile Hfuel. rewrite (list_of_adequate _ _ _ Hfuel).
  cbn [list_of isinstance_str]. by rewrite Hfile.
Qed.

(** C9.  For every literal text, [list(text_generator(text))] is the text
    normalized as a whole (characters outside [A-Za-z0-9] and white space
    deleted, then lowercased) and split on the newline character: the
    segments, empty ones included, joined by newlines give the normalized
    text back and none holds a newline.  Nothing is printed.  On
    "Hello World\nSecond Line" the list is "hello world", "second line". *)
Theorem text_generator_literal_text w text :
  isfile w text = false →
  ∃ g segments,
    text_generator (VStr text) = Return g
    ∧ (∀ fuel, (pulls w g ≤ fuel)%nat →
         list_fuel (next w) fuel g = Some ([], Return segments))
    ∧ segments = split_on newline (lower (re_sub_special text))
    ∧ join newline segments = lower (re_sub_special text)
    ∧ Forall (λ segment, newline ∉ segment) segments
    ∧ (text = lit "Hello World" ++ newline :: lit "Second Line" →
       segments = [lit "hello world"; lit "second line"]).
Proof.
  intros Hfile. eexists _, _. split; [done|]. split; [|split; [done|]].
  - intros fuel Hfuel. by apply list_text_generator_text.
  - split; [apply (join_split_on_from newline [])|]. split.
    + apply split_on_from_no_sep, not_elem_of_nil.
    + by intros ->.
Qed.

Lemma text_generator_literal_text_witness :
  isfile no_files (lit "Hello World" ++ newline :: lit "Second Line") = false
  ∧ list_fuel (next no_files) 3
      (GCreated (VStr (lit "Hello World" ++ newline :: lit "Second Line")))
    = Some ([], Return [lit "hello world"; lit "second line"]).
Proof.
  split; [reflexivity|].
  destruct (text_generator_literal_text no_files
              (lit "Hello World" ++ newline :: lit "Second Line") eq_refl)
    as (g & segments & Hcall & Hlist & _ & _ & _ & Hexample).
  injection Hcall as <-. rewrite <- (Hexample eq_refl).
  apply (Hlist 3%nat). vm_compute. lia.
Defined.

(** C10.  On the empty string, when it names no file, the generator yields
    one element, the empty string, and then stops; [word_frequency] on the
    same input returns the empty map. *)
Theorem text_generator_empty_string w :
  isfile w [] = false →
  (∃ g, text_generator (VStr []) = Return g
        ∧ (∃ g', next w g = ([], Yield [] g') ∧ next w g' = ([], StopIteration))
        ∧ ∀ fuel, (2 ≤ fuel)%nat →
            list_fuel (next w) fuel g = Some ([], Return [[]]))
  ∧ word_frequency w (VStr []) None = Return ∅.
Proof.
  intros Hfile. split.
  - eexists. split; [done|]. split.
    + eexists. cbn [next isinstance_str]. rewrite Hfile. by split.
    + intros fuel Hfuel. rewrite list_text_generator_text; [done..|].
      cbn [pulls isinstance_str]. by rewrite Hfile.
  - by rewrite word_frequency_text.
Qed.

Lemma text_generator_empty_string_witness :
  isfile no_files [] = false
  ∧ list_fuel (next no_files) 2 (GCreated (VStr [])) = Some ([], Return [[]])
  ∧ word_frequency no_files (VStr []) None = Return ∅.
Proof.
  split; [reflexivity|].
  destruct (text_generator_empty_string no_files eq_refl)
    as ((g & Hcall & _ & Hlist) & Hfreq).
  injection Hcall as <-. split; [|exact Hfreq].
  apply (Hlist 2%nat). lia.
Defined.

End LineIterator.

(** ** What the frequency map holds *)

Section FrequencyMap.
Import Py TextToolkit Spec.

Local Abbreviation count_loop :=
  (fold_left
     (λ (freq_words : gmap str Z) data,
        match freq_words !! data with
        | Some c => <[data := c + 1]> freq_words
        | None => <[data := 1]> freq_words
        end)).

Lemma occurrences_cons word x words :
  occurrences word (x :: words)
  = (if bool_decide (x = word) then 1 else 0) + occurrences word words.
Proof.
  unfold occurrences, len. simpl.
  destruct (bool_decide (x = word)); simpl; lia.
Qed.

Lemma occurrences_nonneg word words : 0 ≤ occurrences word words.
Proof. unfold occurrences, len. lia. Qed.

Lemma occurrences_zero word words :
  occurrences word words = 0 ↔ word ∉ words.
Proof.
  induction words as [|x words IH].
  - split; [intros _; apply not_elem_of_nil|done].
  - rewrite occurrences_cons, not_elem_of_cons.
    pose proof (occurrences_nonneg word words).
    case_bool_decide; [subst|]; split.
    + lia.
    + intros [? _]. done.
    + intros Hz. split; [congruence|]. apply IH. lia.
    + intros [_ Hnot]. apply IH in Hnot. lia.
Qed.

Lemma occurrences_app word l1 l2 :
  occurrences word (l1 ++ l2) = occurrences word l1 + occurrences word l2.
Proof.
  unfold occurrences, len. rewrite List.filter_app, length_app. lia.
Qed.

Lemma occurrences_filter (f : str → bool) word words :
  occurrences word (List.filter f words)
  = if f word then occurrences word words else 0.
Proof.
  induction words as [|x words IH]; simpl.
  - by destruct (f word).
  - destruct (f x) eqn:Hx; rewrite ?occurrences_cons, IH;
      case_bool_decide; subst; destruct (f word); try lia; congruence.
Qed.

(** After the loop a word's count is what the map had for it plus its
    occurrences in the list. *)
Lemma count_loop_lookup (words : list str) (freq : gmap str Z) word :
  count_loop words freq !! word
  = if decide (word ∈ words)
    then Some (default 0 (freq !! word) + occurrences word words)
    else freq !! word.
Proof.
  revert freq. induction words as [|x words IH]; intros freq.
  - destruct (decide (word ∈ [])) as [Hin|_]; [|done].
    by apply not_elem_of_nil in Hin.
  - cbn [fold_left]. rewrite IH, occurrences_cons.
    pose proof (proj2 (occurrences_zero word words)) as Hzero.
    destruct (decide (x = word)) as [->|Hne].
    + rewrite bool_decide_eq_true_2 by done.
      assert ((match freq !! word with
               | Some c => <[word := c + 1]> freq
               | None => <[word := 1]> freq
               end) !! word = Some (default 0 (freq !! word) + 1)) as ->.
      { destruct (freq !! word); by rewrite lookup_insert_eq. }
      destruct (decide (word ∈ word :: words)) as [_|Hnot];
        [|exfalso; apply Hnot; left].
      destruct (decide (word ∈ words)) as [|Hnot]; simpl; f_equal; [lia|].
      rewrite (Hzero Hnot). lia.
    + rewrite bool_decide_eq_false_2 by done.
      assert ((match freq !! x with
               | Some c => <[x := c + 1]> freq
               | None => <[x := 1]> freq
               end) !! word = freq !! word) as ->.
      { destruct (freq !! x); by rewrite lookup_insert_ne. }
      destruct (decide (word ∈ words)) as [Hin|Hnot];
        destruct (decide (word ∈ x :: words)) as [Hin'|Hnot'].
      * f_equal; lia.
      * exfalso. apply Hnot'. by right.
      * apply elem_of_cons in Hin' as [->|Hin']; done.
      * done.
Qed.

(** The rows of a file counted one after the other are the words of all
    rows counted in one go. *)
Lemma rows_count_loop (rows : list str) (filter_func : option (str → bool))
    (freq : gmap str Z) :
  fold_left (λ acc row, count_word_frequency row filter_func acc) rows freq
  = count_loop
      (concat ((λ row, Py.filter filter_func (normalized_words row)) <$> rows))
      freq.
Proof.
  revert freq. induction rows as [|row rows IH]; intros freq; [done|].
  cbn [fold_left fmap list_fmap concat]. rewrite fold_left_app, IH.
  by rewrite count_word_frequency_unfold.
Qed.

Lemma word_frequency_counted w text filter_func :
  word_frequency w (VStr text) filter_func
  = if isfile w text
    then match (open w text).2 with
         | None => Return (count_loop (counted_words w text filter_func) ∅)
         | Some cause => Raise (OSError cause)
         end
    else Return (count_loop (counted_words w text filter_func) ∅).
Proof.
  unfold word_frequency, counted_words, chunks_of. cbn [isinstance_str].
  destruct (isfile w text).
  - destruct (open w text) as [rows [cause|]]; unfold for_row_in_file;
      [done|]. by rewrite rows_count_loop.
  - cbn [fmap list_fmap concat]. rewrite app_nil_r.
    by rewrite count_word_frequency_unfold.
Qed.

Lemma elem_of_List_filter {A} (f : A → bool) (l : list A) x :
  x ∈ List.filter f l ↔ f x = true ∧ x ∈ l.
Proof. rewrite !list_elem_of_In, filter_In. tauto. Qed.

Lemma concat_List_filter {A} (f : A → bool) (ls : list (list A)) :
  concat (List.filter f <$> ls) = List.filter f (concat ls).
Proof.
  induction ls as [|l ls IH]; [done|].
  cbn [fmap list_fmap concat]. by rewrite List.filter_app, <- IH.
Qed.

(** With no filter every normalized word is counted; with one, the words
    counted are those that pass it. *)
Lemma counted_words_None w text :
  counted_words w text None = concat (normalized_words <$> chunks_of w text).
Proof.
  unfold counted_words. f_equal. apply list_fmap_ext. intros _ chunk _.
  apply filter_None_split.
Qed.

Lemma counted_words_Some w text f :
  counted_words w text (Some f) = List.filter f (counted_words w text None).
Proof.
  rewrite counted_words_None, <- concat_List_filter.
  unfold counted_words. by rewrite <- list_fmap_compose.
Qed.

(** X1.  When the reading does not fail, the map [word_frequency] returns
    has a key for exactly the words counted (the normalized words of the
    text, or of all rows of the file, that pass the filter) and gives each
    the number of its occurrences among them. *)
Theorem word_frequency_counts_occurrences w text filter_func :
  (isfile w text = true → (open w text).2 = None) →
  ∃ freq_words,
    word_frequency w (VStr text) filter_func = Return freq_words
    ∧ ∀ word,
        freq_words !! word
        = if decide (word ∈ counted_words w text filter_func)
          then Some (occurrences word (counted_words w text filter_func))
          else None.
Proof.
  intros Hread. eexists. split.
  - rewrite word_frequency_counted. destruct (isfile w text); [|done].
    by rewrite Hread.
  - intros word. rewrite count_loop_lookup, lookup_empty. simpl.
    destruct (decide _); [f_equal; lia|done].
Qed.

Lemma word_frequency_counts_occurrences_witness :
  (isfile poem (lit "poem.txt") = true → (open poem (lit "poem.txt")).2 = None)
  ∧ ∃ freq_words,
      word_frequency poem (VStr (lit "poem.txt")) None = Return freq_words
      ∧ freq_words !! lit "the" = Some 3
      ∧ freq_words !! lit "poem" = None.
Proof.
  split; [reflexivity|].
  destruct (word_frequency_counts_occurrences poem (lit "poem.txt") None
              (λ _, eq_refl))
    as (freq_words & Hcall & Hlookup).
  exists freq_words. split; [exact Hcall|].
  split; rewrite Hlookup; reflexivity.
Defined.

(** X2.  Filtering commutes with counting: the map returned with a filter
    is the map returned without one, restricted to the keys the filter
    accepts, counts unchanged.  When the reading fails both calls raise the
    same error. *)
Theorem word_frequency_filter_restricts w text (f : str → bool) :
  match word_frequency w (VStr text) (Some f),
        word_frequency w (VStr text) None with
  | Return filtered, Return all =>
      filtered = base.filter (λ entry, f entry.1 = true) all
  | Raise e, Raise e' => e = e'
  | _, _ => False
  end.
Proof.
  rewrite !word_frequency_counted.
  assert (count_loop (counted_words w text (Some f)) ∅
          = base.filter (λ entry : str * Z, f entry.1 = true)
              (count_loop (counted_words w text None) ∅)) as Heq.
  { apply map_eq. intros word.
    rewrite map_lookup_filter, !count_loop_lookup, lookup_empty.
    rewrite counted_words_Some, occurrences_filter.
    destruct (decide (word ∈ List.filter f _)) as [Hin|Hnot].
    - apply elem_of_List_filter in Hin as [Hf Hin].
      rewrite Hf, decide_True by done. simpl.
      by rewrite option_guard_True.
    - destruct (decide (word ∈ counted_words w text None)) as [Hin|]; [|done].
      simpl. rewrite option_guard_False; [done|].
      intros Hf. apply Hnot, elem_of_List_filter. done. }
  destruct (isfile w text); [|done].
  by destruct (open w text).2.
Qed.


End FrequencyMap.

(** ** What the normalizer produces *)

Section Normalizer.
Import Py TextToolkit Spec.

Local Ltac bool_to_prop :=
  rewrite ?orb_true_iff, ?orb_false_iff, ?andb_true_iff, ?andb_false_iff,
    ?N.leb_le, ?N.leb_gt, ?N.eqb_eq, ?N.eqb_neq in *.

Lemma isupper_not_space c : isupper_ascii c = true → isspace c = false.
Proof. unfold isupper_ascii, isspace. bool_to_prop. lia. Qed.

Lemma lower_char_not_upper c : isupper_ascii (lower_char c) = false.
Proof.
  unfold lower_char. destruct (isupper_ascii c) eqn:Hc; [|done].
  unfold isupper_ascii in *. bool_to_prop. lia.
Qed.

Lemma lower_char_idem c : lower_char (lower_char c) = lower_char c.
Proof. unfold lower_char at 1. by rewrite lower_char_not_upper. Qed.

Lemma kept_lower_char c : kept (lower_char c) = kept c.
Proof.
  unfold lower_char. destruct (isupper_ascii c) eqn:Hc; [|done].
  unfold kept. rewrite Hc. simpl.
  assert (islower_ascii (c + 32) = true) as ->; [|by rewrite orb_true_r].
  unfold isupper_ascii, islower_ascii in *. bool_to_prop. lia.
Qed.

Lemma isspace_lower_char c : isspace (lower_char c) = isspace c.
Proof.
  unfold lower_char. destruct (isupper_ascii c) eqn:Hc; [|done].
  rewrite (isupper_not_space _ Hc).
  unfold isupper_ascii, isspace in *. bool_to_prop. lia.
Qed.

(** A kept character, lowered, is white space or a word character. *)
Lemma lower_char_word c :
  kept c = true → isspace (lower_char c) = false →
  is_word_char (lower_char c) = true.
Proof.
  intros Hkept Hspace. rewrite isspace_lower_char in Hspace.
  unfold lower_char, is_word_char. destruct (isupper_ascii c) eqn:Hc.
  - unfold isupper_ascii, islower_ascii in *. bool_to_prop. lia.
  - unfold kept in Hkept. rewrite Hc, Hspace in Hkept.
    by rewrite !orb_false_r in Hkept.
Qed.

Lemma lower_idem s : lower (lower s) = lower s.
Proof.
  unfold lower. rewrite <- list_fmap_compose.
  apply list_fmap_ext. intros _ c _. apply lower_char_idem.
Qed.

(** Deleting and lowercasing commute. *)
Lemma re_sub_special_lower s :
  re_sub_special (lower s) = lower (re_sub_special s).
Proof.
  unfold re_sub_special, lower. induction s as [|c s IH]; [done|].
  cbn [fmap list_fmap List.filter]. rewrite kept_lower_char.
  destruct (kept c); cbn [fmap list_fmap]; by rewrite IH.
Qed.

Lemma re_sub_special_idem s :
  re_sub_special (re_sub_special s) = re_sub_special s.
Proof. apply filter_all_true, re_sub_special_kept. Qed.

Lemma normalize_idem text : normalize (normalize text) = normalize text.
Proof.
  unfold normalize.
  by rewrite re_sub_special_lower, re_sub_special_idem, lower_idem.
Qed.

Lemma split_from_chars (P : N → Prop) cur s :
  Forall P cur → Forall P s → Forall (Forall P) (split_from cur s).
Proof.
  revert cur. induction s as [|c s IH]; intros cur Hcur Hs; simpl.
  - destruct cur; [constructor|]. by constructor.
  - apply Forall_cons in Hs as [Hc Hs]. destruct (isspace c).
    + destruct cur; [by apply IH|]. constructor; [done|by apply IH].
    + apply IH; [|done]. apply Forall_app. split; [done|]. by constructor.
Qed.

(** A normalized word is not empty and holds small ASCII letters and digits
    only. *)
Lemma normalized_word_shape chunk word :
  word ∈ normalized_words chunk →
  word ≠ [] ∧ Forall (λ c, is_word_char c = true) word.
Proof.
  intros Hin. split.
  - revert word Hin. apply Forall_forall, split_from_nonempty.
  - pose proof (split_from_no_space [] (lower (re_sub_special chunk))
                  (Forall_nil_2 _)) as Hns.
    pose proof (split_from_chars
      (λ c, isspace c = false → is_word_char c = true)
      [] (lower (re_sub_special chunk)) (Forall_nil_2 _)) as Hch.
    rewrite Forall_forall in Hns, Hch.
    specialize (Hns word Hin). rewrite Forall_forall in Hns.
    apply Forall_forall. intros c Hc.
    assert (Forall (λ c, isspace c = false → is_word_char c = true) word)
      as Hword.
    { apply Hch; [|done]. unfold lower. apply Forall_fmap.
      eapply Forall_impl; [apply re_sub_special_kept|].
      intros c' Hkept Hspace. by apply lower_char_word. }
    rewrite Forall_forall in Hword. by apply Hword, Hns.
Qed.

(** A text without any ASCII letter or digit has no normalized word. *)
Lemma split_from_all_space s :
  Forall (λ c, isspace c = true) s → split_from [] s = [].
Proof.
  induction 1 as [|c s Hc _ IH]; [done|]. simpl. by rewrite Hc.
Qed.

Lemma normalized_words_no_alnum text :
  Forall (λ c, is_alnum c = false) text → normalized_words text = [].
Proof.
  intros Hno. apply split_from_all_space. unfold lower, re_sub_special.
  apply Forall_fmap, Forall_forall. intros c [Hkept Hin]%elem_of_List_filter.
  rewrite Forall_forall in Hno. specialize (Hno c Hin). simpl.
  rewrite isspace_lower_char. unfold kept, is_alnum in *.
  destruct (isspace c); [done|]. rewrite orb_false_r in Hkept. congruence.
Qed.

End Normalizer.

(** ** The words of the results *)

Section Words.
Import Py TextToolkit Spec.

Lemma rows_unique (rows : list str) (seen : gset str) :
  fold_left (λ acc row, count_unique_words row acc) rows seen
  = seen ∪ list_to_set (concat (normalized_words <$> rows)).
Proof.
  revert seen. induction rows as [|row rows IH]; intros seen.
  - cbn. set_solver.
  - cbn [fold_left fmap list_fmap concat].
    rewrite IH, count_unique_words_unfold, list_to_set_app_L. set_solver.
Qed.

Lemma unique_words_chunks w text :
  unique_words w (VStr text)
  = let unique_words_txt : gset str :=
      list_to_set (concat (normalized_words <$> chunks_of w text)) in
    if isfile w text
    then match (open w text).2 with
         | None => Return unique_words_txt
         | Some cause =>
             Raise (OSError (lit "Error reading file: " ++ cause))
         end
    else Return unique_words_txt.
Proof.
  unfold unique_words, chunks_of. cbn [isinstance_str].
  destruct (isfile w text).
  - destruct (open w text) as [rows [cause|]]; unfold for_row_in_file;
      [done|]. cbn [reraise_read_error snd fst].
    by rewrite rows_unique, union_empty_l_L.
  - cbn [fmap list_fmap concat]. rewrite app_nil_r.
    by rewrite count_unique_words_unfold, union_empty_l_L.
Qed.

Lemma word_co_occurrence_matrix_chunks w text win window :
  isinstance_int win = Some window →
  word_co_occurrence_matrix w (VStr text) win
  = let co_words_list :=
      concat ((λ chunk, chunk_tuples (normalized_words chunk) window)
                <$> chunks_of w text) in
    if isfile w text
    then match (open w text).2 with
         | None => Return co_words_list
         | Some cause =>
             Raise (OSError (lit "Error reading file: " ++ cause))
         end
    else Return co_words_list.
Proof.
  intros Hwin. unfold word_co_occurrence_matrix, chunks_of.
  cbn [isinstance_str]. rewrite Hwin. destruct (isfile w text).
  - destruct (open w text) as [rows [cause|]]; unfold for_row_in_file;
      [done|]. cbn [reraise_read_error snd fst].
    by rewrite rows_co_occurance.
  - cbn [fmap list_fmap concat]. rewrite app_nil_r.
    by rewrite process_co_occurance_unfold.
Qed.

Lemma elem_of_concat_fmap {A B} (f : A → list B) (l : list A) y :
  y ∈ concat (f <$> l) ↔ ∃ x, x ∈ l ∧ y ∈ f x.
Proof.
  rewrite list_elem_of_In, in_concat. split.
  - intros (ys & Hys & Hy). apply list_elem_of_In in Hys.
    apply list_elem_of_fmap in Hys as (x & -> & Hx).
    exists x. split; [done|by apply list_elem_of_In].
  - intros (x & Hx & Hy). exists (f x).
    rewrite <- !list_elem_of_In. split; [|done].
    apply list_elem_of_fmap. by exists x.
Qed.

Lemma elem_of_slice {A} (l : list A) start stop x :
  x ∈ slice l start stop → x ∈ l.
Proof.
  unfold slice. intros (i & Hi & _)%elem_of_take.
  rewrite lookup_drop in Hi. by eapply list_elem_of_lookup_2.
Qed.

(** X4.  When the reading does not fail, [unique_words] returns the set
    whose members are exactly the words that occur in the normalized words
    of some chunk: of the literal text, or of some row of the file. *)
Theorem unique_words_members w text :
  (isfile w text = true → (open w text).2 = None) →
  ∃ unique_words_txt : gset str,
    unique_words w (VStr text) = Return unique_words_txt
    ∧ ∀ word,
        word ∈ unique_words_txt
        ↔ ∃ chunk, chunk ∈ chunks_of w text ∧ word ∈ normalized_words chunk.
Proof.
  intros Hread. eexists. split.
  - rewrite unique_words_chunks. cbn zeta.
    destruct (isfile w text); [|done]. by rewrite Hread.
  - intros word. by rewrite elem_of_list_to_set, elem_of_concat_fmap.
Qed.

Lemma unique_words_members_witness :
  (isfile poem (lit "poem.txt") = true → (open poem (lit "poem.txt")).2 = None)
  ∧ ∃ unique_words_txt : gset str,
      unique_words poem (VStr (lit "poem.txt")) = Return unique_words_txt
      ∧ lit "hat" ∈ unique_words_txt.
Proof.
  split; [reflexivity|].
  destruct (unique_words_members poem (lit "poem.txt") (λ _, eq_refl))
    as (unique_words_txt & Hcall & Hmem).
  exists unique_words_txt. split; [exact Hcall|].
  apply Hmem. exists (lit "The cat, the Hat!" ++ [newline]).
  split; vm_compute; set_solver.
Defined.

(** X5.  Whatever the input string, the filter and the window, every word
    that appears in a result (a member of the set, a key of the map, a
    component of a tuple) is not empty and consists of small ASCII letters
    and digits only: no capital, no white space, no punctuation. *)
Theorem result_words_are_lowercase_alphanumeric w text filter_func win :
  let well_formed (word : str) :=
    word ≠ [] ∧ Forall (λ c, is_word_char c = true) word in
  match unique_words w (VStr text) with
  | Return unique_words_txt =>
      ∀ word, word ∈ unique_words_txt → well_formed word
  | Raise _ => True
  end
  ∧ match word_frequency w (VStr text) filter_func with
    | Return freq_words =>
        ∀ word, is_Some (freq_words !! word) → well_formed word
    | Raise _ => True
    end
  ∧ match word_co_occurrence_matrix w (VStr text) win with
    | Return co_words_list =>
        ∀ co_word_pair word,
          co_word_pair ∈ co_words_list → word ∈ co_word_pair →
          well_formed word
    | Raise _ => True
    end.
Proof.
  intros well_formed. split; [|split].
  - rewrite unique_words_chunks. cbn zeta.
    assert (∀ word,
      word ∈ (list_to_set (concat (normalized_words <$> chunks_of w text))
               : gset str) → well_formed word) as Hok.
    { intros word (chunk & _ & Hin)%elem_of_list_to_set%elem_of_concat_fmap.
      by eapply normalized_word_shape. }
    destruct (isfile w text); [|done]. by destruct (open w text).2.
  - rewrite word_frequency_counted.
    assert (∀ word,
      is_Some (fold_left
        (λ (freq_words : gmap str Z) data,
           match freq_words !! data with
           | Some c => <[data := c + 1]> freq_words
           | None => <[data := 1]> freq_words
           end) (counted_words w text filter_func) ∅ !! word)
      → well_formed word) as Hok.
    { intros word. rewrite count_loop_lookup, lookup_empty.
      destruct (decide _) as [Hin|]; [intros _|by intros [? ?]].
      apply elem_of_concat_fmap in Hin as (chunk & _ & Hin).
      apply elem_of_List_filter in Hin as [_ Hin].
      by eapply normalized_word_shape. }
    destruct (isfile w text); [|done]. by destruct (open w text).2.
  - unfold word_co_occurrence_matrix at 1. cbn [isinstance_str].
    destruct (isinstance_int win) as [window|] eqn:Hwin; [|done].
    pose proof (word_co_occurrence_matrix_chunks w text win window Hwin)
      as Hcall.
    unfold word_co_occurrence_matrix in Hcall. cbn [isinstance_str] in Hcall.
    rewrite Hwin in Hcall. rewrite Hcall. cbn zeta.
    assert (∀ co_word_pair word,
      co_word_pair
        ∈ concat ((λ chunk, chunk_tuples (normalized_words chunk) window)
                    <$> chunks_of w text) →
      word ∈ co_word_pair → well_formed word) as Hok.
    { intros pair word (chunk & _ & Hpair)%elem_of_concat_fmap Hword.
      unfold chunk_tuples in Hpair.
      apply list_elem_of_fmap in Hpair as (i & -> & _).
      apply elem_of_slice in Hword. by eapply normalized_word_shape. }
    destruct (isfile w text); [|done]. by destruct (open w text).2.
Qed.

End Words.

(** ** Normalized and empty inputs, windows *)

Section Inputs.
Import Py TextToolkit Spec.

Lemma normalized_words_normalize text :
  normalized_words (normalize text) = normalized_words text.
Proof.
  unfold normalized_words. fold (normalize (normalize text)).
  by rewrite normalize_idem.
Qed.

(** X6.  Normalizing is idempotent, and a literal text may be replaced by
    its normalized form: all four operations give the same result on both
    (neither naming a file). *)
Theorem normalized_text_same_results w text filter_func win :
  isfile w text = false → isfile w (normalize text) = false →
  normalize (normalize text) = normalize text
  ∧ word_frequency w (VStr (normalize text)) filter_func
    = word_frequency w (VStr text) filter_func
  ∧ unique_words w (VStr (normalize text)) = unique_words w (VStr text)
  ∧ word_co_occurrence_matrix w (VStr (normalize text)) win
    = word_co_occurrence_matrix w (VStr text) win
  ∧ next w (GCreated (VStr (normalize text))) = next w (GCreated (VStr text)).
Proof.
  intros Htext Hnorm. split; [apply normalize_idem|]. repeat split.
  - rewrite !word_frequency_text by done.
    rewrite !count_word_frequency_unfold.
    by rewrite normalized_words_normalize.
  - unfold unique_words. cbn [isinstance_str]. rewrite Htext, Hnorm.
    rewrite !count_unique_words_unfold.
    by rewrite normalized_words_normalize.
  - unfold word_co_occurrence_matrix. cbn [isinstance_str].
    destruct (isinstance_int win); [|done]. rewrite Htext, Hnorm.
    rewrite !process_co_occurance_unfold.
    by rewrite normalized_words_normalize.
  - cbn [next isinstance_str]. rewrite Htext, Hnorm.
    fold (normalize (normalize text)) (normalize text).
    by rewrite normalize_idem.
Qed.

Lemma normalized_text_same_results_witness :
  isfile no_files (lit "Don't STOP, me now!") = false
  ∧ isfile no_files (normalize (lit "Don't STOP, me now!")) = false
  ∧ normalize (lit "Don't STOP, me now!") = lit "dont stop me now"
  ∧ unique_words no_files (VStr (lit "dont stop me now"))
    = unique_words no_files (VStr (lit "Don't STOP, me now!")).
Proof.
  split; [reflexivity|]. split; [reflexivity|]. split; [reflexivity|].
  destruct (normalized_text_same_results no_files
              (lit "Don't STOP, me now!") None (VInt 2) eq_refl eq_refl)
    as (_ & _ & Hunique & _).
  exact Hunique.
Defined.

(** X7.  A literal text that holds no ASCII letter and no digit (empty,
    white space, punctuation, other scripts) has no word: the frequency map
    and the word set are empty, and no tuple is produced for a window that
    is not negative. *)
Theorem text_without_alphanumerics w text filter_func window :
  Forall (λ c, is_alnum c = false) text →
  isfile w text = false →
  word_frequency w (VStr text) filter_func = Return ∅
  ∧ unique_words w (VStr text) = Return ∅
  ∧ (0 ≤ window →
     word_co_occurrence_matrix w (VStr text) (VInt window) = Return []).
Proof.
  intros Hno Hfile. pose proof (normalized_words_no_alnum text Hno) as Hwords.
  repeat split.
  - rewrite word_frequency_text by done.
    by rewrite count_word_frequency_unfold, Hwords.
  - unfold unique_words. cbn [isinstance_str]. rewrite Hfile.
    rewrite count_unique_words_unfold, Hwords. f_equal; set_solver.
  - intros Hwindow.
    rewrite (word_co_occurrence_matrix_text w text (VInt window) window
               eq_refl Hfile).
    rewrite Hwords. unfold chunk_tuples. rewrite range_nonpos; [done|].
    unfold len. simpl. lia.
Qed.

Lemma text_without_alphanumerics_witness :
  Forall (λ c, is_alnum c = false) (lit "?! ... --") ∧
  isfile no_files (lit "?! ... --") = false
  ∧ word_frequency no_files (VStr (lit "?! ... --")) None = Return ∅.
Proof.
  assert (Forall (λ c, is_alnum c = false) (lit "?! ... --")) as Hno.
  { vm_compute. repeat constructor. }
  split; [exact Hno|]. split; [reflexivity|].
  apply (text_without_alphanumerics no_files (lit "?! ... --") None 2 Hno).
  reflexivity.
Defined.





End Inputs.

(** ** Lines and words *)

Section Lines.
Import Py TextToolkit Spec.

(** Splitting on white space at a white-space character splits the work. *)
Lemma split_from_app_space cur s1 c s2 :
  isspace c = true →
  split_from cur (s1 ++ c :: s2) = split_from cur s1 ++ split s2.
Proof.
  intros Hc. revert cur. induction s1 as [|x s1 IH]; intros cur; simpl.
  - rewrite Hc. by destruct cur.
  - destruct (isspace x); [|apply IH].
    destruct cur; [apply IH|]. by rewrite IH.
Qed.

Lemma split_app_space s1 c s2 :
  isspace c = true → split (s1 ++ c :: s2) = split s1 ++ split s2.
Proof. apply split_from_app_space. Qed.

Lemma split_snoc_space s c : isspace c = true → split (s ++ [c]) = split s.
Proof. intros Hc. by rewrite split_app_space, app_nil_r. Qed.

(** The words of the segments between separators are the words of the
    text, when the separator is white space. *)
Lemma concat_split_split_on sep cur s :
  isspace sep = true →
  concat (split <$> split_on_from sep cur s) = split (cur ++ s).
Proof.
  intros Hsep. revert cur. induction s as [|c s IH]; intros cur; simpl.
  - by rewrite !app_nil_r.
  - destruct (N.eqb_spec c sep) as [->|_].
    + cbn [fmap list_fmap concat]. rewrite IH. simpl.
      by rewrite split_app_space.
    + by rewrite IH, <- app_assoc.
Qed.

Lemma length_split_on_from sep cur s :
  len (split_on_from sep cur s) = 1 + count_char sep s.
Proof.
  assert (length (split_on_from sep cur s)
          = S (length (List.filter (λ x, (x =? sep)%N) s))) as Hlen.
  { revert cur. induction s as [|c s IH]; intros cur; simpl; [done|].
    destruct (c =? sep)%N; simpl; by rewrite IH. }
  unfold len, count_char, len. rewrite Hlen. lia.
Qed.

Lemma count_char_newline_normalize text :
  count_char newline (normalize text) = count_char newline text.
Proof.
  assert (length (List.filter (λ x, (x =? newline)%N)
                    (lower_char <$> List.filter kept text))
          = length (List.filter (λ x, (x =? newline)%N) text)) as Hlen.
  { induction text as [|c text IH]; [done|]. cbn [List.filter].
    assert ((c =? newline)%N = true → kept c = true) as Hnl.
    { intros ->%N.eqb_eq. done. }
    assert ((lower_char c =? newline)%N = (c =? newline)%N) as Hlow.
    { unfold lower_char, isupper_ascii, newline.
      destruct ((65 <=? c) && (c <=? 90))%N eqn:Hup; [|done].
      apply andb_true_iff in Hup as [H1%N.leb_le H2%N.leb_le].
      destruct (N.eqb_spec (c + 32) 10), (N.eqb_spec c 10); lia. }
    destruct (kept c) eqn:Hkept.
    - rewrite fmap_cons. cbn [List.filter]. rewrite Hlow.
      destruct (c =? newline)%N; cbn [length]; by rewrite IH.
    - destruct (c =? newline)%N; [by discriminate Hnl|done]. }
  unfold count_char, normalize, lower, re_sub_special, len. by rewrite Hlen.
Qed.

(** A row that ends in white space keeps its words to itself. *)
Lemma normalized_words_app row rest :
  ends_in_space row →
  normalized_words (row ++ rest)
  = normalized_words row ++ normalized_words rest.
Proof.
  intros (body & c & -> & Hc). unfold normalized_words, re_sub_special, lower.
  assert (kept c = true) as Hkept by (unfold kept; by rewrite Hc, !orb_true_r).
  rewrite !List.filter_app. cbn [List.filter]. rewrite Hkept.
  rewrite !fmap_app. cbn [fmap list_fmap]. rewrite <- app_assoc. simpl.
  assert (isspace (lower_char c) = true) as Hc'.
  { unfold lower_char. destruct (isupper_ascii c) eqn:Hup; [|done].
    unfold isupper_ascii, isspace in *.
    rewrite ?orb_true_iff, ?andb_true_iff, ?N.leb_le, ?N.eqb_eq in *. lia. }
  by rewrite split_app_space, split_snoc_space.
Qed.

Lemma normalized_words_concat rows :
  Forall ends_in_space (take (length rows - 1) rows) →
  normalized_words (concat rows) = concat (normalized_words <$> rows).
Proof.
  induction rows as [|row rows IH]; [done|]. intros Hrows.
  cbn [fmap list_fmap concat]. destruct rows as [|row' rows].
  - simpl. by rewrite !app_nil_r.
  - cbn [length] in Hrows. rewrite Nat.sub_succ, Nat.sub_0_r in Hrows.
    cbn [take] in Hrows. apply Forall_cons in Hrows as [Hrow Hrows].
    rewrite normalized_words_app by done. f_equal. apply IH.
    cbn [length]. by rewrite Nat.sub_succ, Nat.sub_0_r.
Qed.

(** X10.  On a file that reads without fault, [text_generator] yields the
    rows as they are, in file order, neither normalized nor stripped of
    their line terminators, and prints nothing. *)
Theorem text_generator_readable_file w path rows :
  w path = File rows None →
  ∃ g, text_generator (VStr path) = Return g
       ∧ ∀ fuel, (pulls w g ≤ fuel)%nat →
           list_fuel (next w) fuel g = Some ([], Return rows).
Proof.
  intros Hfile. destruct (isfile_File _ _ _ _ Hfile) as [Hisfile Hopen].
  eexists. split; [done|]. intros fuel Hfuel.
  rewrite (list_of_adequate _ _ _ Hfuel).
  cbn [list_of isinstance_str]. by rewrite Hisfile, Hopen.
Qed.

Lemma text_generator_readable_file_witness :
  poem (lit "poem.txt") = File poem_rows None
  ∧ list_fuel (next poem) 3 (GCreated (VStr (lit "poem.txt")))
    = Some ([], Return [lit "The cat, the Hat!" ++ [newline];
                        lit "the end" ++ [newline]]).
Proof.
  split; [reflexivity|].
  destruct (text_generator_readable_file poem (lit "poem.txt") poem_rows
              eq_refl) as (g & Hcall & Hlist).
  injection Hcall as <-. apply (Hlist 3%nat). vm_compute. lia.
Defined.

(** X11.  On a literal text the generator yields one segment more than the
    text has newline characters: never an empty sequence, and a trailing
    newline gives a last, empty segment. *)
Theorem text_generator_segment_count w text :
  isfile w text = false →
  ∃ segments,
    (∀ fuel, (pulls w (GCreated (VStr text)) ≤ fuel)%nat →
       list_fuel (next w) fuel (GCreated (VStr text))
       = Some ([], Return segments))
    ∧ len segments = 1 + count_char newline text.
Proof.
  intros Hfile. eexists. split.
  - intros fuel Hfuel. by apply list_text_generator_text.
  - unfold split_on. rewrite length_split_on_from.
    fold (normalize text). by rewrite count_char_newline_normalize.
Qed.

Lemma text_generator_segment_count_witness :
  isfile no_files (lit "one" ++ [newline] ++ lit "Two!" ++ [newline]) = false
  ∧ list_fuel (next no_files) 4
      (GCreated (VStr (lit "one" ++ [newline] ++ lit "Two!" ++ [newline])))
    = Some ([], Return [lit "one"; lit "two"; []]).
Proof.
  split; [reflexivity|].
  destruct (text_generator_segment_count no_files
              (lit "one" ++ [newline] ++ lit "Two!" ++ [newline]) eq_refl)
    as (segments & Hlist & _).
  rewrite (Hlist 4%nat) by (vm_compute; lia).
  specialize (Hlist 4%nat ltac:(vm_compute; lia)).
  vm_compute in Hlist. injection Hlist as <-. reflexivity.
Defined.

(** X12.  Reading a literal text line by line loses no word and invents
    none: the words of the segments [text_generator] yields, split on white
    space and taken in order, are the normalized words of the text, those
    [word_frequency], [unique_words] and [word_co_occurrence_matrix] work
    on. *)
Theorem text_generator_lines_hold_the_words w text :
  isfile w text = false →
  ∃ segments,
    (∀ fuel, (pulls w (GCreated (VStr text)) ≤ fuel)%nat →
       list_fuel (next w) fuel (GCreated (VStr text))
       = Some ([], Return segments))
    ∧ concat (split <$> segments) = normalized_words text.
Proof.
  intros Hfile. eexists. split.
  - intros fuel Hfuel. by apply list_text_generator_text.
  - unfold split_on. by rewrite concat_split_split_on.
Qed.

Lemma text_generator_lines_hold_the_words_witness :
  isfile no_files (lit "one" ++ [newline] ++ lit "Two three!") = false
  ∧ ∃ segments,
      list_fuel (next no_files) 3
        (GCreated (VStr (lit "one" ++ [newline] ++ lit "Two three!")))
      = Some ([], Return segments)
      ∧ concat (split <$> segments) = [lit "one"; lit "two"; lit "three"].
Proof.
  split; [reflexivity|].
  destruct (text_generator_lines_hold_the_words no_files
              (lit "one" ++ [newline] ++ lit "Two three!") eq_refl)
    as (segments & Hlist & Hwords).
  exists segments. split; [apply Hlist; vm_compute; lia|].
  rewrite Hwords. reflexivity.
Defined.

(** X13.  A file whose rows, the last one possibly excepted, end in a
    white-space character (a line terminator) is counted like the literal
    text made of its rows: [word_frequency] and [unique_words] give the
    same result on the path and on that text. *)
Theorem file_counted_like_its_text w path rows filter_func :
  w path = File rows None →
  Forall ends_in_space (take (length rows - 1) rows) →
  isfile w (concat rows) = false →
  word_frequency w (VStr path) filter_func
  = word_frequency w (VStr (concat rows)) filter_func
  ∧ unique_words w (VStr path) = unique_words w (VStr (concat rows)).
Proof.
  intros Hfile Hrows Htext.
  destruct (isfile_File _ _ _ _ Hfile) as [Hisfile Hopen]. split.
  - rewrite !word_frequency_counted, Hisfile, Htext, Hopen. cbn [snd].
    do 2 f_equal. unfold counted_words, chunks_of.
    rewrite Hisfile, Htext, Hopen. cbn [fst fmap list_fmap concat].
    rewrite app_nil_r, normalized_words_concat by done.
    unfold Py.filter. rewrite <- concat_List_filter.
    by rewrite <- list_fmap_compose.
  - rewrite !unique_words_chunks, Hisfile, Htext, Hopen. cbn [snd]. cbn zeta.
    do 2 f_equal. unfold chunks_of.
    rewrite Hisfile, Htext, Hopen. cbn [fst fmap list_fmap concat].
    by rewrite app_nil_r, normalized_words_concat.
Qed.

Lemma file_counted_like_its_text_witness :
  poem (lit "poem.txt") = File poem_rows None
  ∧ Forall ends_in_space (take (length poem_rows - 1) poem_rows)
  ∧ isfile poem (concat poem_rows) = false
  ∧ unique_words poem (VStr (lit "poem.txt"))
    = unique_words poem (VStr (concat poem_rows)).
Proof.
  assert (Forall ends_in_space (take (length poem_rows - 1) poem_rows))
    as Hrows.
  { constructor; [|constructor].
    exists (lit "The cat, the Hat!"), newline. split; reflexivity. }
  split; [reflexivity|]. split; [exact Hrows|]. split; [reflexivity|].
  apply (file_counted_like_its_text poem (lit "poem.txt") poem_rows None
           eq_refl Hrows eq_refl).
Defined.

End Lines.
